(** * django-locking: the lock state machine of [locking/models.py]

    A shallow embedding of [LockableModelMethodsMixin] and of the module
    function [update], followed by the properties of the lock life cycle
    (acquire with [lock_for], release with [unlock] and [unlock_for], the
    write guard of [save], the derived status [is_locked] / [lock_type]). *)

From Stdlib Require Import ZArith Lia.
From stdpp Require Import base decidable option numbers gmap fin_maps.

Local Open Scope Z_scope.

(** ** Python's [datetime] and [timedelta] *)

Module Datetime.

(** A naive [datetime] has microsecond resolution; it is represented by the
    number of microseconds elapsed since 0001-01-01T00:00:00. *)
Definition datetime : Type := Z.

Definition us_per_second : Z := 1000000.
Definition seconds_per_day : Z := 86400.
Definition us_per_day : Z := seconds_per_day * us_per_second.

(** [timedelta] stores a normalised triple: [days] carries the sign,
    [0 <= seconds < 86400] and [0 <= microseconds < 1000000]. *)
Record timedelta : Type := mk_timedelta
  { days : Z; seconds : Z; microseconds : Z }.

(** [a - b] on two datetimes. Python normalises with floor division, which
    is what [Z.div] and [Z.modulo] compute for a positive divisor. *)
Definition sub (a b : datetime) : timedelta :=
  let d := a - b in
  {| days := d / us_per_day;
     seconds := (d mod us_per_day) / us_per_second;
     microseconds := d mod us_per_second |}.

(** [timedelta.total_seconds()] truncated to whole seconds; the source never
    calls it, it is the quantity the specification speaks about. *)
Definition whole_seconds (a b : datetime) : Z := (a - b) / us_per_second.

(** The datetime that lies [s] whole seconds after the origin. *)
Definition at_second (s : Z) : datetime := s * us_per_second.

End Datetime.

Import Datetime.

(** ** Data model *)

(** [auth.User]: Django compares model instances by class and primary key.
    Users are rows of the user table, so each has a key. *)
Record User : Type := mk_User { user_pk : Z }.

#[global] Instance User_eq_dec : EqDecision User.
Proof. solve_decision. Defined.

(** The columns declared by [LockableModelFieldsMixin]. [locked_at] and
    [locked_by] are nullable. *)
Record fields : Type := mk_fields
  { locked_at : option datetime;
    locked_by : option User;
    hard_lock : bool;
    modified_at : datetime }.

#[global] Instance fields_eq_dec : EqDecision fields.
Proof. solve_decision. Defined.

(** An in-memory model instance: its primary key ([None] until it has been
    saved for the first time) and its attribute values. *)
Record instance : Type := mk_instance
  { pk : option Z;
    attrs : fields }.

(** The table behind the model, keyed by primary key. *)
Abbreviation table := (gmap Z fields).

(** What an operation works on: the handle it is called on and the table. *)
Definition world : Type := instance * table.

(** [settings.LOCKING]. *)
Record Settings : Type := mk_Settings { time_until_expiration : Z }.

(** The exceptions that can leave the methods of the mixin. [DatabaseError]
    stands for whatever the inherited [Model.save] raises. *)
Inductive exn : Type :=
| ValueError
| TypeError
| ObjectLockedError
| DatabaseError.

Inductive result (A : Type) : Type :=
| Return (a : A)
| Raise (e : exn).

Arguments Return {A} a.
Arguments Raise {A} e.

(** An exception leaves the state as it was when it was raised. *)
Definition outcome (A : Type) : Type := result A * world.

(** The value of the [lock_type] property: ["hard"], ["soft"] or [None]. *)
Inductive lock_kind : Type := hard | soft.

#[global] Instance lock_kind_eq_dec : EqDecision lock_kind.
Proof. solve_decision. Defined.

(** ** The module function [update] *)

(** The three keyword arguments every caller in the module passes. *)
Definition set_lock (at_ : option datetime) (by_ : option User) (h : bool)
    (f : fields) : fields :=
  {| locked_at := at_; locked_by := by_; hard_lock := h;
     modified_at := modified_at f |}.

(** [update(obj, locked_at=.., locked_by=.., hard_lock=..)]. The [assert obj]
    holds for every model instance. The query
    [_base_manager.filter(pk=obj.pk).update(..)] rewrites the row whose key is
    [obj.pk] when there is one and touches nothing else; a queryset update
    does not refresh [auto_now] columns. Then every keyword is set on the
    handle (none of the values is an [ExpressionNode]). *)
Definition update (at_ : option datetime) (by_ : option User) (h : bool)
    (w : world) : world :=
  let '(obj, db) := w in
  let db' := match pk obj with
             | Some k => alter (set_lock at_ by_ h) k db
             | None => db
             end in
  ({| pk := pk obj; attrs := set_lock at_ by_ h (attrs obj) |}, db').

(** ** The methods of [LockableModelMethodsMixin] *)

Section Methods.

Context (settings : Settings).

(** [is_locked]; [today] is the value [datetime.today()] returns. *)
Definition is_locked (today : datetime) (obj : instance) : bool :=
  match locked_at (attrs obj) with
  | Some t =>
      if decide (seconds (sub today t) < time_until_expiration settings)
      then true else false
  | None => false
  end.

(** [lock_type]. *)
Definition lock_type (today : datetime) (obj : instance) : option lock_kind :=
  if is_locked today obj then
    if hard_lock (attrs obj) then Some hard else Some soft
  else None.

(** [lock_seconds_remaining]: subtracting [None] from a datetime raises
    [TypeError]. *)
Definition lock_seconds_remaining (today : datetime) (obj : instance)
    : result Z :=
  match locked_at (attrs obj) with
  | Some t => Return (time_until_expiration settings - seconds (sub today t))
  | None => Raise TypeError
  end.

(** [is_locked_by]. The argument is whatever the caller passes: [None] or a
    user. *)
Definition is_locked_by (user : option User) (obj : instance) : bool :=
  bool_decide (user = locked_by (attrs obj)).

(** [lock_applies_to]. *)
Definition lock_applies_to (today : datetime) (user : option User)
    (obj : instance) : bool :=
  is_locked today obj && negb (bool_decide (locked_by (attrs obj) = user)).

(** [lock_for]. The clock is read twice: [t_check] inside [is_locked] and
    [t_write] for the new [locked_at]. An argument that is not an
    [auth.User] ([None] here) is refused with [ValueError]. Log output is
    not modelled; no decision depends on it. *)
Definition lock_for (t_check t_write : datetime) (user : option User)
    (hard_lock_arg : bool) (w : world) : outcome unit :=
  match user with
  | None => (Raise ValueError, w)
  | Some u =>
      if lock_applies_to t_check user (fst w)
      then (Raise ObjectLockedError, w)
      else (Return tt, update (Some t_write) (Some u) hard_lock_arg w)
  end.

(** [unlock]. *)
Definition unlock (w : world) : outcome unit :=
  (Return tt, update None None false w).

(** [unlock_for]. *)
Definition unlock_for (user : option User) (w : world) : outcome unit :=
  if is_locked_by user (fst w) then unlock w
  else (Raise ObjectLockedError, w).

(** The inherited [django.db.models.Model.save]; [None] is a failure of
    the storage layer. *)
Context (Model_save : world -> option world).

(** [super(LockableModelMethodsMixin, self).save(..)]. *)
Definition super_save (w : world) : outcome unit :=
  match Model_save w with
  | Some w' => (Return tt, w')
  | None => (Raise DatabaseError, w)
  end.

(** [save]. *)
Definition save (today : datetime) (w : world) : outcome unit :=
  if decide (lock_type today (fst w) = Some hard)
  then (Raise ObjectLockedError, w)
  else super_save w.

End Methods.

(** ** The transition operations as one step function *)

(** The three operations that write lock fields, with their arguments. *)
Inductive operation : Type :=
| Acquire (t_check t_write : datetime) (user : option User) (hard_lock_arg : bool)
| Release
| ReleaseFor (user : option User).

Definition run (settings : Settings) (op : operation) (w : world)
    : outcome unit :=
  match op with
  | Acquire t_check t_write user h => lock_for settings t_check t_write user h w
  | Release => unlock w
  | ReleaseFor user => unlock_for user w
  end.

Fixpoint run_all (settings : Settings) (ops : list operation) (w : world)
    : world :=
  match ops with
  | nil => w
  | op :: ops' => run_all settings ops' (snd (run settings op w))
  end.

(** ** The state invariant *)

(** [locked_at] and [locked_by] are set together, and [hard_lock] is off
    whenever they are not set. *)
Definition lock_inv (f : fields) : Prop :=
  (is_Some (locked_at f) <-> is_Some (locked_by f)) /\
  (locked_at f = None -> hard_lock f = false).

(** The invariant on the handle and on every stored row. *)
Definition world_inv (w : world) : Prop :=
  lock_inv (attrs (fst w)) /\ map_Forall (fun _ r => lock_inv r) (snd w).

(** ** The status function as the specification words it *)

Inductive status : Type := Unlocked | Soft | Hard.

Definition status_of_lock_type (k : option lock_kind) : status :=
  match k with
  | None => Unlocked
  | Some soft => Soft
  | Some hard => Hard
  end.

(** The specification's [status]: unlocked when [lockedAt] is absent or when
    [now - lockedAt >= expirationInterval], otherwise hard or soft. The
    interval is in seconds, the timestamps in microseconds. *)
Definition spec_status (settings : Settings) (now : datetime) (f : fields)
    : status :=
  match locked_at f with
  | None => Unlocked
  | Some t =>
      if decide (time_until_expiration settings * us_per_second <= now - t)
      then Unlocked
      else if hard_lock f then Hard else Soft
  end.

(** The specification's [secondsRemaining]:
    [expirationInterval - (now - lockedAt)], in whole seconds. *)
Definition spec_secondsRemaining (settings : Settings) (now t : datetime) : Z :=
  time_until_expiration settings - whole_seconds now t.

(** ** Sample data *)

Definition alice : User := mk_User 1.
Definition bob : User := mk_User 2.

Definition ten_minutes : Settings := mk_Settings 600.

(** A never locked record, stored under key 5. *)
Definition fresh_fields : fields :=
  {| locked_at := None; locked_by := None; hard_lock := false;
     modified_at := at_second 0 |}.

Definition fresh_world : world :=
  ({| pk := Some 5; attrs := fresh_fields |}, {[ 5 := fresh_fields ]}).

(** A record that [alice] locked at second 0 and then abandoned. *)
Definition abandoned (h : bool) : fields :=
  {| locked_at := Some (at_second 0); locked_by := Some alice; hard_lock := h;
     modified_at := at_second 0 |}.

Definition abandoned_world (h : bool) : world :=
  ({| pk := Some 5; attrs := abandoned h |}, {[ 5 := abandoned h ]}).

(** A base [save] that writes the handle back to its row. *)
Definition write_back (w : world) : option world :=
  match pk (fst w) with
  | Some k => Some (fst w, <[ k := attrs (fst w) ]> (snd w))
  | None => None
  end.

(** ** Lock fields of a row *)

(** The three values the lock operations write. *)
Definition lock_fields (f : fields) : option datetime * option User * bool :=
  (locked_at f, locked_by f, hard_lock f).

(** A row that carries no lock at all. *)
Definition lock_free (f : fields) : Prop :=
  lock_fields f = (None, None, false).

(** A handle that has no row behind it: it was never saved, or its row has
    been deleted. *)
Definition no_row (w : world) : Prop :=
  forall k : Z, pk (fst w) = Some k -> snd w !! k = None.

(** ** The elapsed-seconds component *)

Lemma us_per_second_pos : 0 < us_per_second.
Proof. reflexivity. Qed.

Lemma us_per_day_pos : 0 < us_per_day.
Proof. reflexivity. Qed.

(** The [seconds] component always lies within one day. *)
Lemma seconds_range (a b : datetime) :
  0 <= seconds (sub a b) < seconds_per_day.
Proof.
  unfold sub; cbn [seconds].
  pose proof (Z.mod_pos_bound (a - b) us_per_day us_per_day_pos) as Hm.
  split.
  - apply Z.div_pos; [lia | apply us_per_second_pos].
  - apply Z.div_lt_upper_bound; [apply us_per_second_pos |].
    unfold us_per_day, seconds_per_day, us_per_second in *. lia.
Qed.

(** During the first day after [b] the component is the elapsed time in
    whole seconds. *)
Lemma seconds_first_day (a b : datetime) :
  0 <= a - b < us_per_day -> seconds (sub a b) = whole_seconds a b.
Proof.
  intros Hd. unfold sub, whole_seconds; cbn [seconds].
  now rewrite Z.mod_small.
Qed.

(** One full day later the component starts again from zero. *)
Lemma seconds_periodic (a b : datetime) :
  seconds (sub (a + us_per_day) b) = seconds (sub a b).
Proof.
  unfold sub; cbn [seconds].
  replace (a + us_per_day - b) with (a - b + 1 * us_per_day) by lia.
  now rewrite Z.mod_add by (pose proof us_per_day_pos; lia).
Qed.

(** ** Derived status *)

Lemma is_locked_None settings today obj :
  locked_at (attrs obj) = None -> is_locked settings today obj = false.
Proof. unfold is_locked. now intros ->. Qed.

Lemma is_locked_Some settings today obj t :
  locked_at (attrs obj) = Some t ->
  is_locked settings today obj = true <->
  seconds (sub today t) < time_until_expiration settings.
Proof.
  unfold is_locked. intros ->. case_decide; split; intros; try done.
Qed.

Lemma lock_type_unlocked settings today obj :
  is_locked settings today obj = false -> lock_type settings today obj = None.
Proof. unfold lock_type. now intros ->. Qed.

Lemma lock_type_hard settings today obj :
  lock_type settings today obj = Some hard <->
  is_locked settings today obj = true /\ hard_lock (attrs obj) = true.
Proof.
  unfold lock_type.
  destruct (is_locked settings today obj), (hard_lock (attrs obj));
    split; (intros [? ?] || intros ?); (done || split; done).
Qed.

(** While less than a day has passed since [locked_at], [lock_type] is the
    status of the specification. *)
Lemma lock_type_first_day settings today obj t :
  locked_at (attrs obj) = Some t ->
  0 <= today - t < us_per_day ->
  status_of_lock_type (lock_type settings today obj)
  = spec_status settings today (attrs obj).
Proof.
  intros Hat Hd. unfold lock_type, is_locked, spec_status. rewrite Hat.
  rewrite (seconds_first_day _ _ Hd). unfold whole_seconds.
  pose proof us_per_second_pos as Hpos.
  destruct (decide (time_until_expiration settings * us_per_second <= today - t))
    as [Hexp | Hlive]; case_decide as Hs.
  - exfalso.
    pose proof (Z.div_le_lower_bound (today - t) us_per_second
                  (time_until_expiration settings) Hpos) as Hlow.
    lia.
  - reflexivity.
  - now destruct (hard_lock (attrs obj)).
  - exfalso. apply Hs. apply Z.div_lt_upper_bound; lia.
Qed.

Lemma lock_type_never_locked settings today obj :
  locked_at (attrs obj) = None ->
  status_of_lock_type (lock_type settings today obj)
  = spec_status settings today (attrs obj).
Proof.
  intros Hat. rewrite lock_type_unlocked by now apply is_locked_None.
  unfold spec_status. now rewrite Hat.
Qed.

(** C1. The status is meant to be Unlocked once [now - lockedAt] has reached
    the expiration interval. For the record locked at second 0 with an
    interval of 600 seconds, at second 86405 (one day and five seconds
    later) the interval has long passed and the specification's status is
    Unlocked, but [is_locked] compares only the [seconds] component of the
    difference, which is 5, and [lock_type] answers ["soft"]. *)
Theorem lock_type_wraps_after_a_day :
  lock_type ten_minutes (at_second 86405)
    {| pk := Some 5; attrs := abandoned false |} = Some soft /\
  spec_status ten_minutes (at_second 86405) (abandoned false) = Unlocked.
Proof. split; reflexivity. Qed.

(** C9. The seconds remaining are meant to be
    [expirationInterval - (now - lockedAt)]. For the record locked at second
    0 with an interval of 600 seconds, that is -85805 at second 86405, but
    [lock_seconds_remaining] subtracts only the [seconds] component of the
    difference and returns 595; on a record that was never locked it raises
    [TypeError]. *)
Theorem lock_seconds_remaining_wraps_after_a_day :
  lock_seconds_remaining ten_minutes (at_second 86405)
    {| pk := Some 5; attrs := abandoned false |} = Return 595 /\
  spec_secondsRemaining ten_minutes (at_second 86405) (at_second 0) = -85805 /\
  lock_seconds_remaining ten_minutes (at_second 86405)
    {| pk := Some 5; attrs := fresh_fields |} = Raise TypeError.
Proof. repeat split; reflexivity. Qed.

(** During the first day after [locked_at] the property is the
    specification's formula, negative values included. *)
Lemma lock_seconds_remaining_first_day settings today obj t :
  locked_at (attrs obj) = Some t ->
  0 <= today - t < us_per_day ->
  lock_seconds_remaining settings today obj
  = Return (spec_secondsRemaining settings today t).
Proof.
  intros Hat Hd. unfold lock_seconds_remaining, spec_secondsRemaining.
  rewrite Hat. now rewrite (seconds_first_day _ _ Hd).
Qed.

(** The scenario of the specification: locked at second 0 for 600 seconds,
    300 seconds remain at second 300 and -1 at second 601. *)
Example lock_seconds_remaining_scenario :
  lock_seconds_remaining ten_minutes (at_second 300)
    {| pk := Some 5; attrs := abandoned false |} = Return 300 /\
  lock_seconds_remaining ten_minutes (at_second 601)
    {| pk := Some 5; attrs := abandoned false |} = Return (-1) /\
  lock_type ten_minutes (at_second 300)
    {| pk := Some 5; attrs := abandoned false |} = Some soft /\
  lock_type ten_minutes (at_second 601)
    {| pk := Some 5; attrs := abandoned false |} = None.
Proof. repeat split; reflexivity. Qed.

(** ** The update primitive *)

Lemma update_handle at_ by_ h w :
  fst (update at_ by_ h w)
  = {| pk := pk (fst w); attrs := set_lock at_ by_ h (attrs (fst w)) |}.
Proof. now destruct w. Qed.

(** Exactly the row of the handle's key is rewritten, if it exists. *)
Lemma update_lookup at_ by_ h (w : world) (k : Z) :
  snd (update at_ by_ h w) !! k
  = if decide (pk (fst w) = Some k)
    then set_lock at_ by_ h <$> snd w !! k
    else snd w !! k.
Proof.
  destruct w as [obj db]; cbn [update fst snd].
  destruct (pk obj) as [k' |].
  - rewrite lookup_alter.
    destruct (decide (k' = k)) as [-> | Hne]; case_decide; congruence.
  - now case_decide.
Qed.

Lemma set_lock_inv_locked t u h f : lock_inv (set_lock (Some t) (Some u) h f).
Proof. split; cbn; [split; eauto | discriminate]. Qed.

Lemma set_lock_inv_cleared f : lock_inv (set_lock None None false f).
Proof.
  split; cbn; [| reflexivity].
  split; intros [x Hx]; discriminate.
Qed.

(** An update that writes an admissible triple keeps the invariant on the
    handle and on the whole table. *)
Lemma update_inv at_ by_ h w :
  (forall f, lock_inv (set_lock at_ by_ h f)) ->
  world_inv w -> world_inv (update at_ by_ h w).
Proof.
  intros Hset [_ Hdb]. split.
  - rewrite update_handle. apply Hset.
  - intros k r. rewrite update_lookup. case_decide.
    + destruct (snd w !! k); intros [= <-]. apply Hset.
    + apply Hdb.
Qed.

(** ** Ownership predicates *)

Lemma is_locked_by_spec user obj :
  is_locked_by user obj = true <-> locked_by (attrs obj) = user.
Proof. unfold is_locked_by. rewrite bool_decide_eq_true. split; congruence. Qed.

Lemma lock_applies_to_spec settings today user obj :
  lock_applies_to settings today user obj = true <->
  is_locked settings today obj = true /\ locked_by (attrs obj) <> user.
Proof.
  unfold lock_applies_to.
  rewrite andb_true_iff, negb_true_iff, bool_decide_eq_false. reflexivity.
Qed.

Lemma lock_applies_to_own settings today user obj :
  locked_by (attrs obj) = user ->
  lock_applies_to settings today user obj = false.
Proof.
  intros Hby. unfold lock_applies_to.
  rewrite (bool_decide_eq_true_2 _ Hby). apply andb_false_r.
Qed.

(** ** Transitions *)

Lemma lock_for_conflict settings t_check t_write u h w :
  lock_applies_to settings t_check (Some u) (fst w) = true ->
  lock_for settings t_check t_write (Some u) h w = (Raise ObjectLockedError, w).
Proof. unfold lock_for. now intros ->. Qed.

Lemma lock_for_granted settings t_check t_write u h w :
  lock_applies_to settings t_check (Some u) (fst w) = false ->
  lock_for settings t_check t_write (Some u) h w
  = (Return tt, update (Some t_write) (Some u) h w).
Proof. unfold lock_for. now intros ->. Qed.

Lemma lock_for_inv settings t_check t_write user h w :
  world_inv w -> world_inv (snd (lock_for settings t_check t_write user h w)).
Proof.
  intros Hw. unfold lock_for. destruct user as [u |]; [| exact Hw].
  destruct (lock_applies_to settings t_check (Some u) (fst w)); [exact Hw |].
  apply update_inv; [apply set_lock_inv_locked | exact Hw].
Qed.

Lemma unlock_inv w : world_inv w -> world_inv (snd (unlock w)).
Proof. apply update_inv, set_lock_inv_cleared. Qed.

Lemma unlock_for_inv user w :
  world_inv w -> world_inv (snd (unlock_for user w)).
Proof.
  intros Hw. unfold unlock_for.
  destruct (is_locked_by user (fst w)); [now apply unlock_inv | exact Hw].
Qed.

Lemma run_inv settings op w :
  world_inv w -> world_inv (snd (run settings op w)).
Proof.
  destruct op; cbn [run];
    auto using lock_for_inv, unlock_inv, unlock_for_inv.
Qed.

(** X16. The invariant holds along every sequence of operations: from a
    state in which the handle and every row satisfy it, any number of
    [lock_for], [unlock] and [unlock_for] calls, returning or raising, lead
    to a state that satisfies it. *)
Lemma run_all_inv settings ops : forall w,
  world_inv w -> world_inv (run_all settings ops w).
Proof.
  induction ops as [| op ops IH]; intros w Hw; cbn [run_all]; [exact Hw |].
  apply IH, run_inv, Hw.
Qed.

Lemma fresh_world_inv : world_inv fresh_world.
Proof.
  assert (lock_inv fresh_fields) as Hf.
  { split; [| reflexivity]. split; intros [x Hx]; discriminate. }
  split; [exact Hf |]. now apply map_Forall_singleton.
Qed.

(** ** Acquire *)



(** C6. A lock never applies to the one recorded as its holder, whatever
    the clock and the rest of the stored state. *)
Theorem lock_applies_to_self_exempt settings today (user : option User) obj :
  locked_by (attrs obj) = user ->
  lock_applies_to settings today user obj = false.
Proof. apply lock_applies_to_own. Qed.

Lemma lock_applies_to_self_exempt_witness :
  lock_applies_to ten_minutes (at_second 300) (Some alice)
    {| pk := Some 5; attrs := abandoned true |} = false.
Proof.
  apply (lock_applies_to_self_exempt ten_minutes (at_second 300) (Some alice)
           {| pk := Some 5; attrs := abandoned true |}).
  reflexivity.
Defined.

(** C7. After [lock_for] has succeeded for a user, a further [lock_for] by
    the same user with a later clock reading succeeds as well, whether or
    not the first lock has expired, and replaces [locked_at] by the later
    reading, on the handle and in the stored row. *)
Theorem lock_for_again_refreshes settings t_check1 t_write1 t_check2 t_write2
    u h1 h2 (w w1 : world) :
  lock_for settings t_check1 t_write1 (Some u) h1 w = (Return tt, w1) ->
  t_write1 < t_write2 ->
  exists w2 : world,
    lock_for settings t_check2 t_write2 (Some u) h2 w1 = (Return tt, w2) /\
    locked_at (attrs (fst w1)) = Some t_write1 /\
    locked_at (attrs (fst w2)) = Some t_write2 /\
    locked_by (attrs (fst w2)) = Some u /\
    forall k : Z, pk (fst w) = Some k -> is_Some (snd w !! k) ->
      locked_at <$> snd w1 !! k = Some (Some t_write1) /\
      locked_at <$> snd w2 !! k = Some (Some t_write2).
Proof.
  intros Hfirst Hlater.
  assert (w1 = update (Some t_write1) (Some u) h1 w) as ->.
  { unfold lock_for in Hfirst.
    destruct (lock_applies_to settings t_check1 (Some u) (fst w));
      congruence. }
  exists (update (Some t_write2) (Some u) h2
            (update (Some t_write1) (Some u) h1 w)).
  split.
  - apply lock_for_granted, lock_applies_to_own.
    now rewrite update_handle.
  - rewrite !update_handle; cbn.
    do 3 (split; [reflexivity |]).
    intros k Hk [r Hr].
    rewrite !update_lookup, update_handle; cbn [pk].
    rewrite !decide_True by assumption.
    rewrite Hr. split; reflexivity.
Qed.

Lemma lock_for_again_refreshes_witness :
  exists w2 : world,
    lock_for ten_minutes (at_second 300) (at_second 300) (Some alice) false
      (update (Some (at_second 0)) (Some alice) false fresh_world)
    = (Return tt, w2) /\
    locked_at (attrs (fst w2)) = Some (at_second 300).
Proof.
  destruct (lock_for_again_refreshes ten_minutes (at_second 0) (at_second 0)
              (at_second 300) (at_second 300) alice false false fresh_world
              (update (Some (at_second 0)) (Some alice) false fresh_world)
              eq_refl eq_refl) as (w2 & Hrun & _ & Hat & _).
  exists w2. split; assumption.
Defined.

(** ** Release *)

(** C5. [unlock] returns for every state, whoever holds the lock and
    whether or not it has expired; afterwards the handle has no [locked_at],
    no [locked_by] and [hard_lock] off, and so has its stored row. *)
Theorem unlock_always_clears (w : world) :
  exists w' : world,
    unlock w = (Return tt, w') /\
    pk (fst w') = pk (fst w) /\
    locked_at (attrs (fst w')) = None /\
    locked_by (attrs (fst w')) = None /\
    hard_lock (attrs (fst w')) = false /\
    forall k : Z,
      snd w' !! k
      = if decide (pk (fst w) = Some k)
        then set_lock None None false <$> snd w !! k
        else snd w !! k.
Proof.
  exists (update None None false w). split; [reflexivity |].
  rewrite update_handle; cbn. repeat split. intros k. apply update_lookup.
Qed.

(** C4. [unlock_for] does what [unlock] does exactly when the stored
    [locked_by] equals its argument; for any other argument it raises
    [ObjectLockedError] and changes nothing. The clock is not consulted, so
    a lock that has expired is still refused to anyone but its holder. *)
Theorem unlock_for_checks_holder (user : option User) (w : world) :
  (unlock_for user w = unlock w <-> locked_by (attrs (fst w)) = user) /\
  (locked_by (attrs (fst w)) <> user ->
   unlock_for user w = (Raise ObjectLockedError, w)) /\
  (forall settings today,
     is_locked settings today (fst w) = false ->
     locked_by (attrs (fst w)) <> user ->
     unlock_for user w = (Raise ObjectLockedError, w)).
Proof.
  assert (locked_by (attrs (fst w)) <> user ->
          unlock_for user w = (Raise ObjectLockedError, w)) as Hother.
  { intros Hne. unfold unlock_for.
    destruct (is_locked_by user (fst w)) eqn:Hby; [| reflexivity].
    now apply is_locked_by_spec in Hby. }
  split; [| split; [exact Hother | intros _ _ _; exact Hother]].
  split.
  - intros Hsame.
    destruct (decide (locked_by (attrs (fst w)) = user)) as [| Hne];
      [assumption |].
    rewrite (Hother Hne) in Hsame. discriminate.
  - intros Hby. unfold unlock_for.
    now rewrite (proj2 (is_locked_by_spec user (fst w)) Hby).
Qed.

Lemma unlock_for_checks_holder_witness :
  unlock_for (Some alice) (abandoned_world true)
  = unlock (abandoned_world true) /\
  unlock_for (Some bob) (abandoned_world true)
  = (Raise ObjectLockedError, abandoned_world true) /\
  is_locked ten_minutes (at_second 700) (fst (abandoned_world true)) = false.
Proof.
  pose proof (unlock_for_checks_holder (Some alice) (abandoned_world true))
    as (Hholder & _).
  pose proof (unlock_for_checks_holder (Some bob) (abandoned_world true))
    as (_ & _ & Hexpired).
  split; [apply Hholder; reflexivity |].
  split; [| reflexivity].
  apply (Hexpired ten_minutes (at_second 700)); [reflexivity | discriminate].
Defined.

(** ** The state invariant under the three operations *)

(** C8. [lock_for], [unlock] and [unlock_for] each lead from a state in
    which the handle and every stored row satisfy the invariant
    ([locked_at] and [locked_by] set together, [hard_lock] off when they are
    not set) to a state that satisfies it again, whether they return or
    raise. *)
Theorem operations_preserve_lock_inv settings (w : world) :
  world_inv w ->
  (forall t_check t_write user h,
     world_inv (snd (lock_for settings t_check t_write user h w))) /\
  world_inv (snd (unlock w)) /\
  (forall user, world_inv (snd (unlock_for user w))).
Proof.
  intros Hw. split; [| split].
  - intros t_check t_write user h. now apply lock_for_inv.
  - now apply unlock_inv.
  - intros user. now apply unlock_for_inv.
Qed.

Lemma operations_preserve_lock_inv_witness :
  world_inv
    (snd (lock_for ten_minutes (at_second 0) (at_second 0) (Some alice) true
            fresh_world)) /\
  world_inv (snd (unlock fresh_world)) /\
  world_inv (snd (unlock_for (Some bob) fresh_world)).
Proof.
  destruct (operations_preserve_lock_inv ten_minutes fresh_world
              fresh_world_inv) as (Hacquire & Hrelease & Hrelease_for).
  split; [apply Hacquire | split; [exact Hrelease | apply Hrelease_for]].
Defined.

(** ** The write guard *)





(** * Further properties of the module *)

(** ** Expiry as [is_locked] computes it *)

Lemma div_second_lt (d e : Z) :
  d / us_per_second < e <-> d < e * us_per_second.
Proof.
  pose proof us_per_second_pos as Hpos. split; intros Hlt.
  - destruct (Z_lt_le_dec d (e * us_per_second)) as [| Hge]; [assumption |].
    pose proof (Z.div_le_lower_bound d us_per_second e Hpos) as Hlow. lia.
  - apply Z.div_lt_upper_bound; lia.
Qed.

Lemma seconds_shift_days (a b n : Z) :
  seconds (sub (a + n * us_per_day) b) = seconds (sub a b).
Proof.
  unfold sub; cbn [seconds].
  replace (a + n * us_per_day - b) with (a - b + n * us_per_day) by lia.
  now rewrite Z.mod_add by (pose proof us_per_day_pos; lia).
Qed.

Lemma is_locked_within_day settings today obj t :
  locked_at (attrs obj) = Some t ->
  0 <= today - t < us_per_day ->
  is_locked settings today obj = true <->
  today - t < time_until_expiration settings * us_per_second.
Proof.
  intros Hat Hd. rewrite (is_locked_Some _ _ _ _ Hat).
  rewrite (seconds_first_day _ _ Hd). apply div_second_lt.
Qed.

(** X1. While less than a day has passed since [locked_at], the record is
    locked exactly as long as the elapsed time is below the configured
    interval. *)
Theorem is_locked_first_day settings today obj t :
  locked_at (attrs obj) = Some t ->
  0 <= today - t < us_per_day ->
  is_locked settings today obj = true <->
  today - t < time_until_expiration settings * us_per_second.
Proof.
  intros Hat Hd. split; intros H.
  - now apply (is_locked_within_day settings today obj t Hat Hd).
  - now apply (is_locked_within_day settings today obj t Hat Hd).
Qed.

Lemma is_locked_first_day_witness :
  is_locked ten_minutes (at_second 599)
    {| pk := Some 5; attrs := abandoned true |} = true.
Proof.
  apply (is_locked_first_day ten_minutes (at_second 599)
           {| pk := Some 5; attrs := abandoned true |} (at_second 0)).
  - reflexivity.
  - vm_compute. split; [discriminate | reflexivity].
  - vm_compute. reflexivity.
Defined.

(** X2. The answers of [is_locked], [lock_type] and
    [lock_seconds_remaining] repeat every 24 hours: moving the clock by any
    whole number of days changes none of them. *)
Theorem status_repeats_daily settings today (n : Z) obj :
  is_locked settings (today + n * us_per_day) obj
  = is_locked settings today obj /\
  lock_type settings (today + n * us_per_day) obj
  = lock_type settings today obj /\
  lock_seconds_remaining settings (today + n * us_per_day) obj
  = lock_seconds_remaining settings today obj.
Proof.
  assert (is_locked settings (today + n * us_per_day) obj
          = is_locked settings today obj) as Hlocked.
  { unfold is_locked. destruct (locked_at (attrs obj)); [| reflexivity].
    now rewrite seconds_shift_days. }
  split; [exact Hlocked |]. split.
  - unfold lock_type. now rewrite Hlocked.
  - unfold lock_seconds_remaining.
    destruct (locked_at (attrs obj)); [| reflexivity].
    now rewrite seconds_shift_days.
Qed.

(** X3. A lock whose [locked_at] lies ahead of the reader's clock, by
    anything up to a day minus the interval, counts as not locked. *)
Theorem is_locked_future_stamp settings today obj t :
  locked_at (attrs obj) = Some t ->
  time_until_expiration settings * us_per_second - us_per_day <= today - t < 0 ->
  is_locked settings today obj = false.
Proof.
  intros Hat [Hlow Hneg].
  destruct (is_locked settings today obj) eqn:Hlocked; [| reflexivity].
  apply (is_locked_Some _ _ _ _ Hat) in Hlocked.
  unfold sub in Hlocked; cbn [seconds] in Hlocked.
  pose proof us_per_day_pos as Hday.
  pose proof us_per_second_pos as Hsec.
  pose proof (seconds_range today t) as Hrange.
  destruct (Z_lt_le_dec 0 (time_until_expiration settings)) as [Hpos | Hnonpos];
    [| unfold sub in Hrange; cbn [seconds] in Hrange; lia].
  assert (0 <= today - t + us_per_day) as Hshift by nia.
  replace ((today - t) mod us_per_day) with (today - t + us_per_day)
    in Hlocked.
  - apply div_second_lt in Hlocked. lia.
  - rewrite <- (Z.mod_small (today - t + us_per_day) us_per_day) by lia.
    replace (today - t + us_per_day) with (today - t + 1 * us_per_day) by lia.
    apply Z.mod_add. lia.
Qed.

Lemma is_locked_future_stamp_witness :
  is_locked ten_minutes (at_second 0)
    {| pk := Some 5;
       attrs := set_lock (Some (at_second 1)) (Some alice) true fresh_fields |}
  = false.
Proof.
  apply (is_locked_future_stamp ten_minutes (at_second 0)
           {| pk := Some 5;
              attrs := set_lock (Some (at_second 1)) (Some alice) true
                         fresh_fields |} (at_second 1)).
  - reflexivity.
  - vm_compute. split; [discriminate | reflexivity].
Defined.

(** X4. With an interval of 86400 seconds or more a record that has a
    [locked_at] is locked at every clock reading; with an interval of zero
    or less no record is ever locked. *)
Theorem is_locked_degenerate_interval settings today obj :
  (seconds_per_day <= time_until_expiration settings ->
   is_Some (locked_at (attrs obj)) ->
   is_locked settings today obj = true) /\
  (time_until_expiration settings <= 0 ->
   is_locked settings today obj = false).
Proof.
  split.
  - intros Hbig [t Hat]. apply (is_locked_Some _ _ _ _ Hat).
    pose proof (seconds_range today t). lia.
  - intros Hsmall. destruct (locked_at (attrs obj)) as [t |] eqn:Hat;
      [| now apply is_locked_None].
    destruct (is_locked settings today obj) eqn:Hlocked; [| reflexivity].
    apply (is_locked_Some _ _ _ _ Hat) in Hlocked.
    pose proof (seconds_range today t). lia.
Qed.

Lemma is_locked_degenerate_interval_witness :
  is_locked (mk_Settings 172800) (at_second 999999)
    {| pk := Some 5; attrs := abandoned false |} = true /\
  is_locked (mk_Settings 0) (at_second 0)
    {| pk := Some 5; attrs := abandoned false |} = false.
Proof.
  split.
  - apply (is_locked_degenerate_interval (mk_Settings 172800)
             (at_second 999999) {| pk := Some 5; attrs := abandoned false |}).
    + vm_compute. discriminate.
    + eexists. reflexivity.
  - apply (is_locked_degenerate_interval (mk_Settings 0) (at_second 0)
             {| pk := Some 5; attrs := abandoned false |}).
    vm_compute. discriminate.
Defined.

(** X5. [lock_seconds_remaining] raises [TypeError] on a record without
    [locked_at]; otherwise it returns a number that is at most the interval
    and more than the interval minus 86400, and that is positive exactly
    when [is_locked] is true. *)
Theorem lock_seconds_remaining_range settings today obj :
  match locked_at (attrs obj) with
  | None =>
      lock_seconds_remaining settings today obj = Raise TypeError /\
      is_locked settings today obj = false
  | Some _ =>
      exists r : Z,
        lock_seconds_remaining settings today obj = Return r /\
        time_until_expiration settings - seconds_per_day < r
          <= time_until_expiration settings /\
        (0 < r <-> is_locked settings today obj = true)
  end.
Proof.
  destruct (locked_at (attrs obj)) as [t |] eqn:Hat.
  - exists (time_until_expiration settings - seconds (sub today t)).
    unfold lock_seconds_remaining. rewrite Hat.
    pose proof (seconds_range today t).
    split; [reflexivity |]. split; [lia |].
    rewrite (is_locked_Some _ _ _ _ Hat). lia.
  - unfold lock_seconds_remaining. rewrite Hat.
    split; [reflexivity | now apply is_locked_None].
Qed.

(** ** What [update] leaves alone *)

Lemma update_pk at_ by_ h w : pk (fst (update at_ by_ h w)) = pk (fst w).
Proof. now rewrite update_handle. Qed.

Lemma update_dom at_ by_ h (w : world) :
  dom (snd (update at_ by_ h w)) = dom (snd w).
Proof.
  destruct w as [obj db]; cbn [update fst snd].
  destruct (pk obj); [apply dom_alter_L | reflexivity].
Qed.

Lemma update_modified_at at_ by_ h (w : world) (k : Z) :
  modified_at <$> snd (update at_ by_ h w) !! k = modified_at <$> snd w !! k.
Proof.
  rewrite update_lookup. case_decide; [| reflexivity].
  now destruct (snd w !! k).
Qed.

Lemma update_no_row at_ by_ h (w : world) :
  no_row w -> snd (update at_ by_ h w) = snd w.
Proof.
  intros Hnone. destruct w as [obj db]; cbn [update fst snd].
  destruct (pk obj) as [k |] eqn:Hpk; [| reflexivity].
  apply alter_id'. now apply Hnone.
Qed.

(** Every operation either leaves the state alone or performs one
    [update]. *)
Lemma run_cases settings op (w : world) :
  snd (run settings op w) = w \/
  exists at_ by_ h,
    run settings op w = (Return tt, update at_ by_ h w).
Proof.
  destruct op as [t_check t_write user h | | user]; cbn [run].
  - unfold lock_for. destruct user as [u |]; [| now left].
    destruct (lock_applies_to settings t_check (Some u) (fst w));
      [now left | right; eauto].
  - right. unfold unlock. eauto.
  - unfold unlock_for. destruct (is_locked_by user (fst w)); [| now left].
    right. unfold unlock. eauto.
Qed.

Lemma alter_set_lock_twice at_ by_ h at' by' h' (k : Z) (db : table) :
  alter (set_lock at_ by_ h) k (alter (set_lock at' by' h') k db)
  = alter (set_lock at_ by_ h) k db.
Proof.
  apply map_eq; intros j.
  destruct (decide (k = j)) as [-> | Hne].
  - rewrite !lookup_alter_eq. now destruct (db !! j).
  - now rewrite !lookup_alter_ne.
Qed.

Lemma update_update at_ by_ h at' by' h' (w : world) :
  update at_ by_ h (update at' by' h' w) = update at_ by_ h w.
Proof.
  destruct w as [obj db]; cbn [update pk attrs].
  f_equal. destruct (pk obj) as [k |]; [| reflexivity].
  apply alter_set_lock_twice.
Qed.

(** X6. A later [update] of the lock fields overwrites an earlier one
    completely: the handle and the table are as if only the later one had
    run. *)
Theorem update_overwrites at_ by_ h at' by' h' (w : world) :
  update at_ by_ h (update at' by' h' w) = update at_ by_ h w /\
  forall k : Z,
    snd (update at_ by_ h (update at' by' h' w)) !! k
    = if decide (pk (fst w) = Some k)
      then set_lock at_ by_ h <$> snd w !! k
      else snd w !! k.
Proof.
  split; [apply update_update |].
  intros k. rewrite update_update. apply update_lookup.
Qed.

(** X7. However many lock operations run, the handle keeps its key and its
    [modified_at], no row is added to or removed from the table, no row
    changes its [modified_at], and every row other than the handle's own
    stays as it was. *)
Theorem run_all_frame settings ops : forall w : world,
  pk (fst (run_all settings ops w)) = pk (fst w) /\
  modified_at (attrs (fst (run_all settings ops w)))
  = modified_at (attrs (fst w)) /\
  dom (snd (run_all settings ops w)) = dom (snd w) /\
  forall k : Z,
    modified_at <$> snd (run_all settings ops w) !! k
    = modified_at <$> snd w !! k /\
    (pk (fst w) <> Some k -> snd (run_all settings ops w) !! k = snd w !! k).
Proof.
  induction ops as [| op ops IH]; intros w; cbn [run_all].
  - repeat split.
  - destruct (IH (snd (run settings op w))) as (Hpk & Hmod & Hdom & Hrows).
    destruct (run_cases settings op w) as [Hsame | (a & b & h & Hrun)].
    + rewrite Hsame in *. repeat split; try assumption; apply Hrows.
    + rewrite Hrun in *; cbn [snd] in *.
      rewrite update_pk in Hpk. rewrite update_dom in Hdom.
      rewrite update_handle in Hmod; cbn in Hmod.
      split; [exact Hpk |]. split; [exact Hmod |]. split; [exact Hdom |].
      intros k. destruct (Hrows k) as [Hm Hother]. split.
      * rewrite Hm. apply update_modified_at.
      * intros Hne. rewrite Hother by now rewrite update_pk.
        rewrite update_lookup. now rewrite decide_False.
Qed.

(** X8. On a handle without a row behind it (never saved, or its row
    deleted) [lock_for], [unlock] and [unlock_for] return or raise as usual
    and change the handle only: the table stays exactly as it was. *)
Theorem no_row_table_untouched settings op (w : world) :
  no_row w -> snd (snd (run settings op w)) = snd w.
Proof.
  intros Hnone.
  destruct (run_cases settings op w) as [-> | (a & b & h & ->)];
    [reflexivity |].
  now apply update_no_row.
Qed.

Lemma no_row_table_untouched_witness :
  lock_for ten_minutes (at_second 0) (at_second 0) (Some alice) true
    ({| pk := None; attrs := fresh_fields |}, {[ 5 := fresh_fields ]})
  = (Return tt,
     ({| pk := None;
         attrs := set_lock (Some (at_second 0)) (Some alice) true fresh_fields |},
      {[ 5 := fresh_fields ]})).
Proof.
  pose proof (no_row_table_untouched ten_minutes
                (Acquire (at_second 0) (at_second 0) (Some alice) true)
                ({| pk := None; attrs := fresh_fields |},
                 {[ 5 := fresh_fields ]})) as Htable.
  cbn [run] in Htable.
  destruct (lock_for ten_minutes (at_second 0) (at_second 0) (Some alice) true
              ({| pk := None; attrs := fresh_fields |},
               {[ 5 := fresh_fields ]})) as [r [obj db]] eqn:Hrun.
  cbn [snd] in Htable. rewrite Htable by (intros k Hk; discriminate).
  vm_compute in Hrun. injection Hrun as <- <- _. reflexivity.
Defined.

(** X9. [unlock] after any operation gives the same state as [unlock]
    alone; in particular a second [unlock] changes nothing more. *)
Theorem unlock_resets settings op (w : world) :
  unlock (snd (run settings op w)) = unlock w.
Proof.
  destruct (run_cases settings op w) as [-> | (a & b & h & ->)];
    [reflexivity |].
  unfold unlock; cbn [snd]. now rewrite update_update.
Qed.



(** X11. After an operation that returns, the handle and its stored row
    carry the same [locked_at], [locked_by] and [hard_lock]. *)
Theorem returned_operation_in_sync settings op (w w' : world) :
  run settings op w = (Return tt, w') ->
  forall (k : Z) (r : fields),
    pk (fst w') = Some k -> snd w' !! k = Some r ->
    lock_fields r = lock_fields (attrs (fst w')).
Proof.
  intros Hrun k r Hpk Hrow.
  assert (exists at_ by_ h, w' = update at_ by_ h w) as (a & b & h & ->).
  { destruct op as [t_check t_write user h | | user]; cbn [run] in Hrun.
    - unfold lock_for in Hrun. destruct user as [u |]; [| discriminate].
      destruct (lock_applies_to settings t_check (Some u) (fst w));
        [discriminate |].
      injection Hrun as <-. eauto.
    - unfold unlock in Hrun. injection Hrun as <-. eauto.
    - unfold unlock_for, unlock in Hrun.
      destruct (is_locked_by user (fst w)); [| discriminate].
      injection Hrun as <-. eauto. }
  rewrite update_pk in Hpk. rewrite update_lookup in Hrow.
  rewrite decide_True in Hrow by assumption.
  rewrite update_handle; cbn [attrs].
  destruct (snd w !! k); [| discriminate].
  injection Hrow as <-. reflexivity.
Qed.

Lemma returned_operation_in_sync_witness :
  lock_fields (set_lock (Some (at_second 700)) (Some bob) false (abandoned true))
  = lock_fields
      (attrs (fst (update (Some (at_second 700)) (Some bob) false
                     (abandoned_world true)))).
Proof.
  apply (returned_operation_in_sync ten_minutes
           (Acquire (at_second 700) (at_second 700) (Some bob) false)
           (abandoned_world true)
           (update (Some (at_second 700)) (Some bob) false
              (abandoned_world true)) eq_refl 5).
  - reflexivity.
  - vm_compute. reflexivity.
Defined.

(** ** How the operations compose *)

Lemma set_lock_lock_free f : lock_free f -> set_lock None None false f = f.
Proof.
  destruct f as [a b h m]. unfold lock_free, lock_fields; cbn.
  now intros [= -> -> ->].
Qed.

Lemma update_lock_free (w : world) :
  lock_free (attrs (fst w)) ->
  (forall k r, pk (fst w) = Some k -> snd w !! k = Some r -> lock_free r) ->
  update None None false w = w.
Proof.
  destruct w as [[key f] db]; cbn [fst snd pk attrs update].
  intros Hhandle Hrow. f_equal.
  - now rewrite set_lock_lock_free.
  - destruct key as [k |]; [| reflexivity].
    apply alter_id. intros r Hr. apply set_lock_lock_free. now apply (Hrow k).
Qed.

Lemma lock_for_returns settings t_check t_write u h (w w1 : world) :
  lock_for settings t_check t_write (Some u) h w = (Return tt, w1) ->
  w1 = update (Some t_write) (Some u) h w.
Proof.
  unfold lock_for.
  destruct (lock_applies_to settings t_check (Some u) (fst w)); congruence.
Qed.

Lemma fresh_world_lock_free :
  lock_free (attrs (fst fresh_world)) /\
  forall k r, pk (fst fresh_world) = Some k ->
    snd fresh_world !! k = Some r -> lock_free r.
Proof.
  split; [reflexivity |]. intros k r [= <-].
  cbn [fresh_world snd]. rewrite lookup_singleton_eq. now intros [= <-].
Qed.

(** X12. On a record that carries no lock, on the handle or in its row,
    [lock_for] by a user followed by [unlock_for] by the same user both
    return and restore the handle and the table exactly. *)
Theorem lock_unlock_round_trip settings t_check t_write u h (w : world) :
  lock_free (attrs (fst w)) ->
  (forall k r, pk (fst w) = Some k -> snd w !! k = Some r -> lock_free r) ->
  exists w1 : world,
    lock_for settings t_check t_write (Some u) h w = (Return tt, w1) /\
    unlock_for (Some u) w1 = (Return tt, w).
Proof.
  intros Hhandle Hrow.
  exists (update (Some t_write) (Some u) h w). split.
  - apply lock_for_granted. unfold lock_applies_to.
    rewrite is_locked_None; [reflexivity |].
    unfold lock_free, lock_fields in Hhandle. congruence.
  - unfold unlock_for.
    rewrite (proj2 (is_locked_by_spec (Some u) _));
      [| now rewrite update_handle].
    unfold unlock. rewrite update_update.
    now rewrite update_lock_free.
Qed.

Lemma lock_unlock_round_trip_witness :
  exists w1 : world,
    lock_for ten_minutes (at_second 0) (at_second 0) (Some alice) true
      fresh_world = (Return tt, w1) /\
    unlock_for (Some alice) w1 = (Return tt, fresh_world).
Proof.
  apply (lock_unlock_round_trip ten_minutes (at_second 0) (at_second 0)
           alice true fresh_world);
    apply fresh_world_lock_free.
Defined.

(** X13. Once [lock_for] has returned for a user, then during the
    following day [lock_for] by any other user raises [ObjectLockedError]
    exactly while less than the interval has passed since the lock was
    written; from then on it returns and hands the lock over. *)
Theorem lease_excludes_others settings t_check1 t_write1 u h1 (w w1 : world)
    t_check2 t_write2 v h2 :
  lock_for settings t_check1 t_write1 (Some u) h1 w = (Return tt, w1) ->
  v <> u ->
  0 <= t_check2 - t_write1 < us_per_day ->
  (t_check2 - t_write1 < time_until_expiration settings * us_per_second ->
   lock_for settings t_check2 t_write2 (Some v) h2 w1
   = (Raise ObjectLockedError, w1)) /\
  (time_until_expiration settings * us_per_second <= t_check2 - t_write1 ->
   exists w2 : world,
     lock_for settings t_check2 t_write2 (Some v) h2 w1 = (Return tt, w2) /\
     locked_by (attrs (fst w2)) = Some v /\
     locked_at (attrs (fst w2)) = Some t_write2).
Proof.
  intros Hfirst Hvu Hday.
  apply lock_for_returns in Hfirst. subst w1.
  assert (locked_at (attrs (fst (update (Some t_write1) (Some u) h1 w)))
          = Some t_write1) as Hat by now rewrite update_handle.
  pose proof (is_locked_within_day settings t_check2 _ t_write1 Hat Hday)
    as Hlive.
  split.
  - intros Hin. apply lock_for_conflict, lock_applies_to_spec.
    split; [now apply Hlive |].
    rewrite update_handle; cbn. congruence.
  - intros Hout.
    exists (update (Some t_write2) (Some v) h2
              (update (Some t_write1) (Some u) h1 w)).
    split; [| now rewrite update_handle].
    apply lock_for_granted. unfold lock_applies_to.
    assert (is_locked settings t_check2
              (fst (update (Some t_write1) (Some u) h1 w)) = false) as ->;
      [| reflexivity].
    apply not_true_iff_false. intros Hlocked. apply Hlive in Hlocked. lia.
Qed.

Lemma lease_excludes_others_witness :
  lock_for ten_minutes (at_second 599) (at_second 599) (Some bob) false
    (update (Some (at_second 0)) (Some alice) false fresh_world)
  = (Raise ObjectLockedError,
     update (Some (at_second 0)) (Some alice) false fresh_world) /\
  exists w2 : world,
    lock_for ten_minutes (at_second 600) (at_second 600) (Some bob) false
      (update (Some (at_second 0)) (Some alice) false fresh_world)
    = (Return tt, w2) /\
    locked_by (attrs (fst w2)) = Some bob /\
    locked_at (attrs (fst w2)) = Some (at_second 600).
Proof.
  split.
  - apply (lease_excludes_others ten_minutes (at_second 0) (at_second 0)
             alice false fresh_world _ (at_second 599) (at_second 599)
             bob false eq_refl).
    + discriminate.
    + vm_compute. split; [discriminate | reflexivity].
    + vm_compute. reflexivity.
  - apply (lease_excludes_others ten_minutes (at_second 0) (at_second 0)
             alice false fresh_world _ (at_second 600) (at_second 600)
             bob false eq_refl).
    + discriminate.
    + vm_compute. split; [discriminate | reflexivity].
    + vm_compute. discriminate.
Defined.

(** X14. After [lock_for] with [hard_lock=True] has returned, [save] on
    that handle raises [ObjectLockedError] while the lock is live, although
    the holder is the one calling; after [unlock_for] by the holder, [save]
    reaches the inherited [save] at every clock reading. *)
Theorem hard_lock_blocks_save_until_unlock settings Model_save
    t_check t_write u (w w1 : world) today :
  lock_for settings t_check t_write (Some u) true w = (Return tt, w1) ->
  0 <= today - t_write < us_per_day ->
  today - t_write < time_until_expiration settings * us_per_second ->
  save settings Model_save today w1 = (Raise ObjectLockedError, w1) /\
  exists w2 : world,
    unlock_for (Some u) w1 = (Return tt, w2) /\
    forall today', save settings Model_save today' w2 = super_save Model_save w2.
Proof.
  intros Hfirst Hday Hlive.
  apply lock_for_returns in Hfirst. subst w1.
  split.
  - unfold save. rewrite decide_True; [reflexivity |].
    apply lock_type_hard. split; [| now rewrite update_handle].
    apply (is_locked_within_day settings today _ t_write);
      [now rewrite update_handle | assumption | assumption].
  - exists (update None None false (update (Some t_write) (Some u) true w)).
    split.
    + unfold unlock_for.
      rewrite (proj2 (is_locked_by_spec (Some u) _));
        [reflexivity | now rewrite update_handle].
    + intros today'. unfold save.
      rewrite lock_type_unlocked; [now rewrite decide_False by discriminate |].
      apply is_locked_None. now rewrite update_handle.
Qed.

Lemma hard_lock_blocks_save_until_unlock_witness :
  save ten_minutes write_back (at_second 300)
    (update (Some (at_second 0)) (Some alice) true fresh_world)
  = (Raise ObjectLockedError,
     update (Some (at_second 0)) (Some alice) true fresh_world).
Proof.
  apply (hard_lock_blocks_save_until_unlock ten_minutes write_back
           (at_second 0) (at_second 0) alice fresh_world _ (at_second 300)
           eq_refl).
  - vm_compute. split; [discriminate | reflexivity].
  - vm_compute. reflexivity.
Defined.

(** X15. The holder of a hard lock can lift the write guard without
    releasing: [lock_for] again by the same user with [hard_lock=False]
    returns, and from then on [save] on that handle reaches the inherited
    [save] at every clock reading. *)
Theorem relock_soft_lifts_guard settings Model_save t_check1 t_write1
    t_check2 t_write2 u (w w1 : world) :
  lock_for settings t_check1 t_write1 (Some u) true w = (Return tt, w1) ->
  exists w2 : world,
    lock_for settings t_check2 t_write2 (Some u) false w1 = (Return tt, w2) /\
    locked_by (attrs (fst w2)) = Some u /\
    forall today, save settings Model_save today w2 = super_save Model_save w2.
Proof.
  intros Hfirst. apply lock_for_returns in Hfirst. subst w1.
  exists (update (Some t_write2) (Some u) false
            (update (Some t_write1) (Some u) true w)).
  split; [| split].
  - apply lock_for_granted, lock_applies_to_own. now rewrite update_handle.
  - now rewrite update_handle.
  - intros today. unfold save. rewrite decide_False; [reflexivity |].
    rewrite lock_type_hard, update_handle; cbn. intros [_ [=]].
Qed.

Lemma relock_soft_lifts_guard_witness :
  exists w2 : world,
    lock_for ten_minutes (at_second 100) (at_second 100) (Some alice) false
      (update (Some (at_second 0)) (Some alice) true fresh_world)
    = (Return tt, w2) /\
    save ten_minutes write_back (at_second 200) w2 = super_save write_back w2.
Proof.
  destruct (relock_soft_lifts_guard ten_minutes write_back (at_second 0)
              (at_second 0) (at_second 100) (at_second 100) alice fresh_world
              _ eq_refl) as (w2 & Hrun & _ & Hsave).
  exists w2. split; [exact Hrun | apply Hsave].
Defined.

(** The invariant after a lock, a conflicting lock, a release by a
    stranger and a release. *)
Lemma run_all_inv_witness :
  world_inv
    (run_all ten_minutes
       (Acquire (at_second 0) (at_second 0) (Some alice) true
        :: Acquire (at_second 5) (at_second 5) (Some bob) false
        :: ReleaseFor (Some bob)
        :: Release :: nil)
       fresh_world).
Proof. apply (run_all_inv ten_minutes _ fresh_world), fresh_world_inv. Defined.
